(** * A shallow embedding of the task-tracking API of [src/main.py]

    The FastAPI/SQLModel application keeps one SQLite table [task] and
    exposes five CRUD handlers plus a keyword classifier.  Python strings are
    modelled as lists of Unicode code points, the table as the list of its
    rows in rowid order, and every handler as a function from the table to a
    response (or an error) and the table after the request's session. *)

From Stdlib Require Import List String Ascii ZArith NArith Bool Lia Sorted Permutation.
Import ListNotations.

Open Scope list_scope.

(** ** Python strings *)

(** A Python [str] is a sequence of code points. *)
Definition pystr := list N.

(** ASCII literals of the source, as code points. *)
Fixpoint u (s : string) : pystr :=
  match s with
  | EmptyString => []
  | String c s' => N_of_ascii c :: u s'
  end.

(** [p] is a prefix of [s]. *)
Fixpoint prefixb (p s : pystr) : bool :=
  match p, s with
  | [], _ => true
  | x :: p', y :: s' => N.eqb x y && prefixb p' s'
  | _ :: _, [] => false
  end.

(** Python's [kw in s] on strings: substring test. *)
Fixpoint containsb (s kw : pystr) : bool :=
  prefixb kw s ||
  match s with
  | [] => false
  | _ :: s' => containsb s' kw
  end.

(** ** [str.lower]

    On ASCII code points Python lowers exactly [A]..[Z].  Outside ASCII it
    applies the full lowercase mapping of the Unicode database, which may
    return several code points (U+0130 lowers to U+0069 U+0307).  That table
    is a parameter of the classifier: [unicode_lower c] is
    [chr(c).lower()] for [c >= 128]. *)

Definition ascii_lower (c : N) : N :=
  if (65 <=? c)%N && (c <=? 90)%N then (c + 32)%N else c.

(** ASCII uppercasing, the inverse case change on [a]..[z]. *)
Definition ascii_upper (c : N) : N :=
  if (97 <=? c)%N && (c <=? 122)%N then (c - 32)%N else c.

Section Classifier.

Variable unicode_lower : N -> pystr.

Definition lower_cp (c : N) : pystr :=
  if (c <? 128)%N then [ascii_lower c] else unicode_lower c.

Definition py_lower (s : pystr) : pystr := flat_map lower_cp s.

(** The label literals exactly as they are in the source file.  The file is
    UTF-8 text whose emoji were saved after a cp1252 round trip: the literal
    after ["Critical "] is U+00F0 U+0178 U+201D U+00B4 (["ðŸ”´"]), not U+1F534. *)
Definition critical_label : pystr := u "Critical " ++ [240; 376; 8221; 180]%N.
Definition growth_label : pystr := u "Growth " ++ [240; 376; 376; 162]%N.
Definition neutral_label : pystr := u "Neutral " ++ [226; 353; 170]%N.

(** [simple_ai_model] (main.py, lines 111-117). *)
Definition simple_ai_model (text : pystr) : pystr :=
  if containsb (py_lower text) (u "urgent") || containsb (py_lower text) (u "fail")
     || containsb (py_lower text) (u "error") then critical_label
  else if containsb (py_lower text) (u "learn") || containsb (py_lower text) (u "buy")
  then growth_label
  else neutral_label.

End Classifier.

(** The labels as the spec writes them: U+1F534, U+1F7E2, U+26AA. *)
Definition spec_critical_label : pystr := u "Critical " ++ [128308]%N.
Definition spec_growth_label : pystr := u "Growth " ++ [128994]%N.
Definition spec_neutral_label : pystr := u "Neutral " ++ [9898]%N.

(** Case-insensitive keyword matching as the spec describes it, with the
    source's labels: each code point is compared to the (lowercase ASCII)
    keyword up to ASCII case. *)
Definition classify_spec (text : pystr) : pystr :=
  let t := map ascii_lower text in
  if containsb t (u "urgent") || containsb t (u "fail") || containsb t (u "error")
  then critical_label
  else if containsb t (u "learn") || containsb t (u "buy") then growth_label
  else neutral_label.

(** ** The [task] table *)

(** A stored row: the full [Task] shape (main.py, lines 26-33).  The
    primary key is an SQLite [INTEGER PRIMARY KEY] (a rowid alias), so a
    stored row always has an integer id; [title] and [is_completed] are
    declared without [Optional] and are [NOT NULL] columns. *)
Record task := mk_task {
  id : Z;
  title : pystr;
  description : option pystr;
  is_completed : bool
}.

(** The table, rows in rowid order (the order of a full table scan, which is
    what [SELECT ... LIMIT ... OFFSET ...] without [ORDER BY] reads). *)
Definition db := list task.

(** A field of a JSON request body: absent, explicit [null], or a value. *)
Inductive field (A : Type) : Type :=
| Absent
| Null
| Val (v : A).
Arguments Absent {A}.
Arguments Null {A}.
Arguments Val {A} v.

(** The JSON body of [POST /tasks/] and [PATCH /tasks/{id}], typed. *)
Record task_body := mk_body {
  body_title : field pystr;
  body_description : field pystr;
  body_is_completed : field bool
}.

(** [TaskCreate] after validation. *)
Record task_create := mk_create {
  create_title : pystr;
  create_description : option pystr;
  create_is_completed : bool
}.

(** Pydantic validation of [TaskCreate]: [title : str] is required and not
    nullable; [description : Optional[str] = None]; [is_completed : bool =
    False] has a default but is not nullable.  No length constraint. *)
Definition validate_create (b : task_body) : option task_create :=
  match body_title b with
  | Val t =>
      let d := match body_description b with
               | Val s => Some s
               | _ => None
               end in
      match body_is_completed b with
      | Absent => Some (mk_create t d false)
      | Val c => Some (mk_create t d c)
      | Null => None
      end
  | _ => None
  end.

(** [TaskUpdate] after validation: for each field, [None] when it was not
    sent (unset), [Some v] when it was sent, with [v = None] for [null]. *)
Record task_update := mk_update {
  update_title : option (option pystr);
  update_description : option (option pystr);
  update_is_completed : option (option bool)
}.

Definition field_set {A} (f : field A) : option (option A) :=
  match f with
  | Absent => None
  | Null => Some None
  | Val v => Some (Some v)
  end.

(** Every field of [TaskUpdate] is [Optional] with default [None], so every
    typed body validates. *)
Definition validate_update (b : task_body) : task_update :=
  mk_update (field_set (body_title b)) (field_set (body_description b))
            (field_set (body_is_completed b)).

(** An entry of [task_update.model_dump(exclude_unset=True)]. *)
Inductive update_entry :=
| SetTitle (v : option pystr)
| SetDescription (v : option pystr)
| SetIsCompleted (v : option bool).

Definition model_dump_exclude_unset (tu : task_update) : list update_entry :=
  match update_title tu with Some v => [SetTitle v] | None => [] end ++
  match update_description tu with Some v => [SetDescription v] | None => [] end ++
  match update_is_completed tu with Some v => [SetIsCompleted v] | None => [] end.

(** The ORM instance of a row inside a session.  Table models do not
    validate on assignment, so any attribute may hold [None]. *)
Record task_obj := mk_obj {
  obj_id : Z;
  obj_title : option pystr;
  obj_description : option pystr;
  obj_is_completed : option bool
}.

Definition load (t : task) : task_obj :=
  mk_obj (id t) (Some (title t)) (description t) (Some (is_completed t)).

(** [setattr] of one dumped entry. *)
Definition setattr (o : task_obj) (e : update_entry) : task_obj :=
  match e with
  | SetTitle v => mk_obj (obj_id o) v (obj_description o) (obj_is_completed o)
  | SetDescription v => mk_obj (obj_id o) (obj_title o) v (obj_is_completed o)
  | SetIsCompleted v => mk_obj (obj_id o) (obj_title o) (obj_description o) v
  end.

(** [db_task.sqlmodel_update(task_data)]: [setattr] for each key. *)
Definition sqlmodel_update (o : task_obj) (data : list update_entry) : task_obj :=
  fold_left setattr data o.

(** ** Binding values into SQLite *)

(** sqlite3 binds a Python [int] as a 64-bit INTEGER and raises
    [OverflowError] for any other int.  An SQLite rowid is such an integer. *)
Definition min_int64 : Z := -9223372036854775808.
Definition max_rowid : Z := 9223372036854775807.

Definition in_int64 (z : Z) : bool := (min_int64 <=? z)%Z && (z <=? max_rowid)%Z.

(** sqlite3 binds a [str] as UTF-8: a lone surrogate (U+D800..U+DFFF), which
    a JSON body may carry as a [\ud800] escape, raises [UnicodeEncodeError].
    Starlette's [JSONResponse] encodes a rendered body the same way. *)
Definition utf8_encodable (s : pystr) : bool :=
  forallb (fun c => negb ((55296 <=? c)%N && (c <=? 57343)%N)) s.
Arguments utf8_encodable s : simpl never.

Definition opt_encodable (s : option pystr) : bool :=
  match s with
  | Some s => utf8_encodable s
  | None => true
  end.

Definition entry_encodable (e : update_entry) : bool :=
  match e with
  | SetTitle v => opt_encodable v
  | SetDescription v => opt_encodable v
  | SetIsCompleted _ => true
  end.

(** ** Handlers' errors *)

(** [ValidationError] is FastAPI's 422, [NotFound] the handlers'
    [HTTPException(status_code=404, detail=...)]; the others are uncaught
    exceptions (a 500): [IntegrityError] of a [NOT NULL] column, the
    [OverflowError] and [UnicodeEncodeError] of binding a value, and the
    [OperationalError] of [SQLITE_FULL] ([SqliteFull]). *)
Inductive api_error :=
| ValidationError
| NotFound (detail : pystr)
| IntegrityError
| OverflowError
| UnicodeEncodeError
| SqliteFull.

(** Flushing the instance: [UPDATE task SET ... WHERE id = ?] for the
    attributes [sqlmodel_update] assigned ([dirty]).  sqlite3 binds their
    values first, then SQLite refuses [NULL] in a [NOT NULL] column
    ([IntegrityError]); otherwise the row is written as it is.  (SQLAlchemy
    leaves out an attribute assigned its stored value; a stored string is
    always encodable, so a string that is not is never left out.) *)
Definition flush (o : task_obj) (dirty : list update_entry) : api_error + task :=
  if negb (forallb entry_encodable dirty) then inl UnicodeEncodeError
  else
    match obj_title o, obj_is_completed o with
    | Some t, Some c => inr (mk_task (obj_id o) t (obj_description o) c)
    | _, _ => inl IntegrityError
    end.

(** [session.get(Task, task_id)]: [SELECT ... WHERE task.id = ?], a point
    lookup by primary key.  Binding an id outside int64 raises
    [OverflowError] before any row is read: no row is found, and [missing]
    is then the error the handler raises. *)
Definition session_get (rows : db) (i : Z) : option task :=
  if in_int64 i then find (fun t => Z.eqb (id t) i) rows else None.

(** The error of a handler whose lookup found no row: its 404, or the
    [OverflowError] of binding an id outside int64. *)
Definition missing (i : Z) : api_error :=
  if in_int64 i then NotFound (u "Task not found") else OverflowError.

Definition ids (rows : db) : list Z := map id rows.

(** [MAX_ROWID >> 1], the mask of SQLite's random rowids. *)
Definition random_rowid_mask : Z := 4611686018427387903.

(** The rowid SQLite gives an [INSERT] without an id ([OP_NewRowid]): 1 in
    an empty table, otherwise one more than the largest rowid.  Once the
    largest rowid is [MAX_ROWID], it draws up to 100 candidates
    [(v & (MAX_ROWID >> 1)) + 1] and takes the first one not in use, [rnd k]
    being the [k]-th 64-bit value [sqlite3_randomness] gives; [None] when
    all 100 are in use ([SQLITE_FULL]). *)
Definition next_rowid (rnd : nat -> Z) (rows : db) : option Z :=
  match ids rows with
  | [] => Some 1%Z
  | i :: is =>
      let m := fold_left Z.max is i in
      if (m <? max_rowid)%Z then Some (m + 1)%Z
      else find (fun v => negb (existsb (Z.eqb v) (ids rows)))
                (map (fun k => (Z.land (rnd k) random_rowid_mask + 1)%Z) (seq 0 100))
  end.

(** The table after an [INSERT] of [r]: rows stay in rowid order. *)
Fixpoint insert_row (r : task) (rows : db) : db :=
  match rows with
  | [] => [r]
  | t :: rows' => if (id r <? id t)%Z then r :: rows else t :: insert_row r rows'
  end.

(** [UPDATE task SET ... WHERE id = i]. *)
Definition sql_update (rows : db) (i : Z) (r : task) : db :=
  map (fun t => if Z.eqb (id t) i then r else t) rows.

(** [DELETE FROM task WHERE id = i]. *)
Definition sql_delete (rows : db) (i : Z) : db :=
  filter (fun t => negb (Z.eqb (id t) i)) rows.

(** [SELECT ... LIMIT lim OFFSET off] in SQLite: a negative offset counts as
    0 and a negative limit means no upper bound. *)
Definition sql_limit_offset (rows : db) (off lim : Z) : db :=
  let rest := skipn (Z.to_nat off) rows in
  if (lim <? 0)%Z then rest else firstn (Z.to_nat lim) rest.

(** ** Handlers *)

(** Response bodies of the endpoints. *)
Inductive response :=
| RTask (t : task)                         (* response_model=Task *)
| RTaskList (ts : list task)               (* response_model=List[Task] *)
| ROk (ok : bool)                          (* {"ok": True} *)
| RAnalysis (description predicted_sentiment : pystr).

Inductive outcome :=
| Ok (r : response)
| Err (e : api_error).

Definition not_found : outcome := Err (NotFound (u "Task not found")).

(** Each handler returns its outcome and the table once its session is
    closed: a raised error leaves no write committed. *)

(** [create_task] (lines 58-64): [Task.model_validate], add, commit (the
    [INSERT] binds title and description, then SQLite picks the rowid),
    refresh (after the commit, [SELECT ... WHERE id = ?] binds the new id). *)
Definition create_task (rnd : nat -> Z) (rows : db) (tc : task_create) : outcome * db :=
  if negb (utf8_encodable (create_title tc) && opt_encodable (create_description tc))
  then (Err UnicodeEncodeError, rows)
  else
    match next_rowid rnd rows with
    | None => (Err SqliteFull, rows)
    | Some i =>
        let row := mk_task i (create_title tc) (create_description tc)
                           (create_is_completed tc) in
        if in_int64 i then (Ok (RTask row), insert_row row rows)
        else (Err OverflowError, insert_row row rows)
    end.

(** [POST /tasks/]: the body is validated as [TaskCreate] first. *)
Definition post_task (rows : db) (b : task_body) (rnd : nat -> Z) : outcome * db :=
  match validate_create b with
  | None => (Err ValidationError, rows)
  | Some tc => create_task rnd rows tc
  end.

(** [read_tasks] (lines 67-74) with the [Query(default=100, le=100)] check
    on [limit]; the query binds [limit] and [offset]. *)
Definition read_tasks (rows : db) (offset limit : Z) : outcome * db :=
  if (100 <? limit)%Z then (Err ValidationError, rows)
  else if in_int64 offset && in_int64 limit
  then (Ok (RTaskList (sql_limit_offset rows offset limit)), rows)
  else (Err OverflowError, rows).

(** [read_task] (lines 77-82). *)
Definition read_task (rows : db) (task_id : Z) : outcome * db :=
  match session_get rows task_id with
  | None => (Err (missing task_id), rows)
  | Some t => (Ok (RTask t), rows)
  end.

(** [update_task] (lines 85-98).  The refresh re-reads the row the commit
    wrote. *)
Definition update_task (rows : db) (task_id : Z) (tu : task_update) : outcome * db :=
  match session_get rows task_id with
  | None => (Err (missing task_id), rows)
  | Some db_task =>
      let task_data := model_dump_exclude_unset tu in
      match flush (sqlmodel_update (load db_task) task_data) task_data with
      | inl e => (Err e, rows)
      | inr r => (Ok (RTask r), sql_update rows task_id r)
      end
  end.

(** [PATCH /tasks/{id}]: the body is validated as [TaskUpdate] first. *)
Definition patch_task (rows : db) (task_id : Z) (b : task_body) : outcome * db :=
  update_task rows task_id (validate_update b).

(** [delete_task] (lines 101-108). *)
Definition delete_task (rows : db) (task_id : Z) : outcome * db :=
  match session_get rows task_id with
  | None => (Err (missing task_id), rows)
  | Some _ => (Ok (ROk true), sql_delete rows task_id)
  end.

(** [analyze_task_sentiment] (lines 120-123); the response echoes [d]. *)
Definition analyze_task_sentiment (unicode_lower : N -> pystr) (rows : db)
    (d : pystr) : outcome * db :=
  if utf8_encodable d then (Ok (RAnalysis d (simple_ai_model unicode_lower d)), rows)
  else (Err UnicodeEncodeError, rows).

(** A request to the application; a create carries the random values
    SQLite would draw for it. *)
Inductive request :=
| PostTask (b : task_body) (rnd : nat -> Z)
| GetTasks (offset limit : Z)
| GetTask (task_id : Z)
| PatchTask (task_id : Z) (b : task_body)
| DeleteTask (task_id : Z)
| Analyze (d : pystr).

Definition handle (unicode_lower : N -> pystr) (rows : db) (rq : request)
    : outcome * db :=
  match rq with
  | PostTask b rnd => post_task rows b rnd
  | GetTasks o l => read_tasks rows o l
  | GetTask i => read_task rows i
  | PatchTask i b => patch_task rows i b
  | DeleteTask i => delete_task rows i
  | Analyze d => analyze_task_sentiment unicode_lower rows d
  end.

(** The table after a sequence of requests, from a given table. *)
Fixpoint run (unicode_lower : N -> pystr) (rows : db) (rqs : list request) : db :=
  match rqs with
  | [] => rows
  | rq :: rqs' => run unicode_lower (snd (handle unicode_lower rows rq)) rqs'
  end.

(** Sample values. *)
Definition body_of_title (t : pystr) : task_body := mk_body (Val t) Absent Absent.
Definition empty_patch : task_body := mk_body Absent Absent Absent.
Definition sample_db : db :=
  [mk_task 1 (u "Buy milk") None false; mk_task 2 (u "Fix error") (Some (u "prod")) false].
(** Random values that are all 0. *)
Definition rnd0 : nat -> Z := fun _ => 0%Z.

(** ** Notions used by the proofs *)

(** [kw] occurs in [s]. *)
Definition In_sub (kw s : pystr) : Prop := exists a b, s = a ++ kw ++ b.

(** The letters of the classifier's keywords; [sanitize] sends every other
    code point to 0. *)
Definition kw_alphabet : pystr := u "urgentfailboy".

Definition sanitize (c : N) : N :=
  if existsb (N.eqb c) kw_alphabet then c else 0%N.

(** What the classifier's proof needs of the Unicode lowercase table: a
    non-ASCII code point lowers to a non-empty string whose ASCII code points
    are at most a [k] (U+212A, KELVIN SIGN), except U+0130, which lowers to
    [i] followed by U+0307. *)
Definition lower_table_ok (unicode_lower : N -> pystr) : Prop :=
  forall c, (128 <= c)%N ->
    unicode_lower c = [105; 775]%N \/
    (unicode_lower c <> [] /\
     Forall (fun d => (128 <= d)%N \/ d = 107%N) (unicode_lower c)).

(** A keyword made of the alphabet's letters that does not end in [i]. *)
Definition kw_ok (kw : pystr) : Prop :=
  kw <> [] /\ (forall k, In k kw -> In k kw_alphabet) /\
  (forall a, kw <> a ++ [105%N]).

(** A JSON string field whose value, if any, sqlite3 can bind. *)
Definition field_encodable (f : field pystr) : bool :=
  match f with
  | Val s => utf8_encodable s
  | _ => true
  end.

(** How a request may change the ids of the table. *)
Definition id_effect (rq : request) (rows rows' : db) : Prop :=
  match rq with
  | PostTask _ _ =>
      ids rows' = ids rows \/
      exists i pre post, ids rows = pre ++ post /\ ids rows' = pre ++ i :: post /\
                         ~ In i (ids rows)
  | DeleteTask i => ids rows' = filter (fun j => negb (Z.eqb j i)) (ids rows)
  | _ => ids rows' = ids rows
  end.

(** * Proofs *)

(** ** Substrings *)

Lemma prefixb_spec : forall p s, prefixb p s = true <-> exists b, s = p ++ b.
Proof.
  induction p as [|x p IH]; intros s; simpl.
  - split; [intros _; now exists s | auto].
  - destruct s as [|y s]; simpl.
    + split; [discriminate | intros [b Hb]; discriminate].
    + rewrite andb_true_iff, N.eqb_eq, IH. split.
      * intros [-> [b ->]]. now exists b.
      * intros [b Hb]. injection Hb as -> ->. eauto.
Qed.

Lemma containsb_spec : forall s kw, containsb s kw = true <-> In_sub kw s.
Proof.
  unfold In_sub. induction s as [|x s IH]; intros kw; simpl.
  - rewrite orb_false_r, prefixb_spec. split.
    + intros [b Hb]. exists [], b. simpl. exact Hb.
    + intros [a [b Hab]]. destruct a; [|discriminate].
      destruct kw; [|discriminate]. now exists b.
  - rewrite orb_true_iff, prefixb_spec, IH. split.
    + intros [[b Hb] | [a [b Hab]]].
      * now exists [], b.
      * exists (x :: a), b. simpl. now rewrite Hab.
    + intros [a [b Hab]]. destruct a as [|y a]; simpl in Hab.
      * left. now exists b.
      * injection Hab as -> ->. right. eauto.
Qed.

Lemma In_sub_app_l : forall kw P Q, In_sub kw P -> In_sub kw (P ++ Q).
Proof.
  intros kw P Q [a [b ->]]. exists a, (b ++ Q). now rewrite <- !app_assoc.
Qed.

Lemma In_sub_app_r : forall kw P Q, In_sub kw Q -> In_sub kw (P ++ Q).
Proof.
  intros kw P Q [a [b ->]]. exists (P ++ a), b. now rewrite <- !app_assoc.
Qed.

(** A code point that is not in [kw] splits the search in two. *)
Lemma In_sub_split : forall x kw X Y,
  kw <> [] -> ~ In x kw ->
  In_sub kw (X ++ x :: Y) <-> In_sub kw X \/ In_sub kw Y.
Proof.
  intros x kw X Y Hne Hx. split.
  - intros [a [b Hab]].
    apply app_eq_app in Hab as [l [[HX Hl] | [Ha Hl]]].
    + (* the occurrence starts inside X *)
      symmetry in Hl. apply app_eq_app in Hl as [m [[Hl Hb] | [Hkw Hm]]].
      * left. exists a, m. subst. now rewrite app_assoc.
      * destruct m as [|y m].
        -- rewrite app_nil_r in Hkw. subst. left. exists a, []. now rewrite app_nil_r.
        -- injection Hm as -> _. exfalso. apply Hx. subst. apply in_or_app. now right; left.
    + (* the occurrence starts at x or after it *)
      destruct l as [|y l]; simpl in Hl.
      * destruct kw as [|k kw]; [contradiction|]. injection Hl as -> _. exfalso. apply Hx. now left.
      * injection Hl as -> ->. right. now exists l, b.
  - intros [H | H].
    + now apply In_sub_app_l.
    + apply In_sub_app_r. destruct H as [a [b ->]]. now exists (x :: a), b.
Qed.

(** A last code point that cannot end [kw] adds no occurrence. *)
Lemma In_sub_snoc : forall x kw P,
  kw <> [] -> (forall a, kw <> a ++ [x]) ->
  In_sub kw (P ++ [x]) <-> In_sub kw P.
Proof.
  intros x kw P Hne Hend. split.
  - intros [a [b Hab]]. induction b as [|y b' _] using rev_ind.
    + exfalso. destruct (exists_last Hne) as [k [z Hk]]. rewrite app_nil_r in Hab.
      subst kw. rewrite app_assoc in Hab. apply app_inj_tail in Hab as [_ ->].
      now apply (Hend k).
    + rewrite !app_assoc in Hab. apply app_inj_tail in Hab as [Hp _].
      exists a, b'. now rewrite Hp, <- !app_assoc.
  - apply In_sub_app_l.
Qed.

Lemma In_sub_repeat : forall x kw P n,
  kw <> [] -> ~ In x kw ->
  In_sub kw (P ++ repeat x n) <-> In_sub kw P.
Proof.
  intros x kw P n Hne Hx. induction n as [|n IH].
  - now rewrite app_nil_r.
  - simpl repeat. rewrite repeat_cons, app_assoc, In_sub_snoc; [exact IH | exact Hne |].
    intros a Ha. apply Hx. rewrite Ha. apply in_or_app. right. now left.
Qed.

(** ** Case-insensitive matching of the classifier *)

Lemma sanitize_alphabet : forall k, In k kw_alphabet -> sanitize k = k.
Proof.
  intros k Hk. unfold sanitize.
  replace (existsb (N.eqb k) kw_alphabet) with true; [reflexivity|].
  symmetry. apply existsb_exists. exists k. now rewrite N.eqb_refl.
Qed.

Lemma zero_not_alphabet : ~ In 0%N kw_alphabet.
Proof. simpl. intuition discriminate. Qed.

Lemma sanitize_inv : forall x k, In k kw_alphabet -> sanitize x = k -> x = k.
Proof.
  intros x k Hk. unfold sanitize. destruct (existsb (N.eqb x) kw_alphabet); [auto|].
  intros <-. contradiction (zero_not_alphabet Hk).
Qed.

Lemma map_sanitize_inv : forall kw s,
  (forall k, In k kw -> In k kw_alphabet) -> map sanitize s = kw -> s = kw.
Proof.
  induction kw as [|k kw IH]; intros s Hkw Hs; destruct s as [|x s]; try discriminate.
  - reflexivity.
  - simpl in Hs. injection Hs as Hx Hs.
    rewrite (sanitize_inv x k (Hkw k (or_introl eq_refl)) Hx).
    f_equal. apply IH; [intros; apply Hkw; now right | exact Hs].
Qed.

Lemma In_sub_sanitize : forall kw s,
  (forall k, In k kw -> In k kw_alphabet) ->
  In_sub kw s <-> In_sub kw (map sanitize s).
Proof.
  intros kw s Hkw. split.
  - intros [a [b ->]]. exists (map sanitize a), (map sanitize b).
    rewrite !map_app. f_equal. f_equal.
    clear - Hkw. induction kw as [|k kw IH]; [reflexivity|]. simpl.
    rewrite sanitize_alphabet by (apply Hkw; now left).
    f_equal. apply IH. intros; apply Hkw; now right.
  - intros [a [b Hab]].
    apply map_eq_app in Hab as [a' [r [-> [_ Hr]]]].
    apply map_eq_app in Hr as [k' [b' [-> [Hk _]]]].
    apply map_sanitize_inv in Hk as ->; [|exact Hkw]. now exists a', b'.
Qed.

Lemma sanitize_non_ascii : forall c, (128 <= c)%N -> sanitize c = 0%N.
Proof.
  intros c Hc. unfold sanitize.
  destruct (existsb (N.eqb c) kw_alphabet) eqn:E; [|reflexivity].
  apply existsb_exists in E as [k [Hk Hck]]. apply N.eqb_eq in Hck. subst k.
  simpl in Hk. exfalso. intuition (subst; lia).
Qed.

Lemma sanitize_kelvin : sanitize 107%N = 0%N.
Proof. reflexivity. Qed.

Lemma ascii_lower_non_ascii : forall c, (128 <= c)%N -> ascii_lower c = c.
Proof.
  intros c Hc. unfold ascii_lower.
  replace (c <=? 90)%N with false by (symmetry; apply N.leb_gt; lia).
  now rewrite andb_false_r.
Qed.

(** What the table gives for a non-ASCII code point, once sanitized. *)
Lemma sanitize_unicode_lower : forall ul c,
  lower_table_ok ul -> (128 <= c)%N ->
  map sanitize (ul c) = [105; 0]%N \/
  exists n, map sanitize (ul c) = repeat 0%N n ++ [0%N].
Proof.
  intros ul c Hok Hc. destruct (Hok c Hc) as [-> | [Hne Hall]].
  - now left.
  - right. destruct (exists_last Hne) as [l [z Hl]]. rewrite Hl in Hall |- *.
    exists (List.length l). rewrite map_app. apply Forall_app in Hall as [Hl' Hz].
    f_equal.
    + clear - Hl'. induction l as [|d l IH]; [reflexivity|]. inversion Hl'; subst.
      simpl. f_equal; [|now apply IH].
      destruct H1 as [H1 | ->]; [now apply sanitize_non_ascii | reflexivity].
    + inversion Hz; subst. simpl. f_equal.
      destruct H1 as [H1 | ->]; [now apply sanitize_non_ascii | reflexivity].
Qed.

Lemma py_lower_matches : forall ul kw,
  lower_table_ok ul -> kw_ok kw ->
  forall t P, In_sub kw (P ++ map sanitize (py_lower ul t)) <->
              In_sub kw (P ++ map sanitize (map ascii_lower t)).
Proof.
  intros ul kw Hok [Hne [Hkw Hend]].
  assert (H0 : ~ In 0%N kw) by (intros H; exact (zero_not_alphabet (Hkw _ H))).
  induction t as [|c t IH]; intros P; [reflexivity|].
  unfold py_lower in *. simpl flat_map. simpl map. rewrite map_app.
  unfold lower_cp at 1. destruct (c <? 128)%N eqn:Hc.
  - simpl. pose proof (IH (P ++ [sanitize (ascii_lower c)])) as H.
    rewrite <- !app_assoc in H. exact H.
  - apply N.ltb_ge in Hc.
    rewrite (ascii_lower_non_ascii c Hc), (sanitize_non_ascii c Hc).
    pose proof (IH []) as IH0. simpl in IH0.
    rewrite (In_sub_split 0%N kw P) by assumption.
    destruct (sanitize_unicode_lower ul c Hok Hc) as [E | [n E]]; rewrite E.
    + replace (P ++ [105; 0]%N ++ map sanitize (flat_map (lower_cp ul) t))
        with ((P ++ [105%N]) ++ 0%N :: map sanitize (flat_map (lower_cp ul) t))
        by (now rewrite <- app_assoc).
      rewrite In_sub_split, In_sub_snoc by assumption. tauto.
    + replace (P ++ (repeat 0%N n ++ [0%N]) ++ map sanitize (flat_map (lower_cp ul) t))
        with ((P ++ repeat 0%N n) ++ 0%N :: map sanitize (flat_map (lower_cp ul) t))
        by (now rewrite <- !app_assoc).
      rewrite In_sub_split, In_sub_repeat by assumption. tauto.
Qed.

Lemma containsb_py_lower : forall ul kw text,
  lower_table_ok ul -> kw_ok kw ->
  containsb (py_lower ul text) kw = containsb (map ascii_lower text) kw.
Proof.
  intros ul kw text Hok Hkw. apply eq_true_iff_eq.
  rewrite !containsb_spec, (In_sub_sanitize kw (py_lower ul text)),
    (In_sub_sanitize kw (map ascii_lower text)) by apply Hkw.
  exact (py_lower_matches ul kw Hok Hkw text []).
Qed.

Lemma keyword_ok : forall kw,
  In kw [u "urgent"; u "fail"; u "error"; u "learn"; u "buy"] -> kw_ok kw.
Proof.
  intros kw Hkw. simpl in Hkw.
  repeat destruct Hkw as [<- | Hkw]; try contradiction;
  (split; [discriminate | split;
    [ intros k Hk; simpl in Hk; simpl; intuition
    | intros a Ha; apply (f_equal (@rev N)) in Ha; rewrite rev_app_distr in Ha;
      simpl in Ha; discriminate ]]).
Qed.

(** The classifier matches its keywords up to ASCII case, whatever the
    Unicode lowercase table, as long as it has the shape of Python's. *)
Theorem simple_ai_model_matches_spec : forall ul text,
  lower_table_ok ul -> simple_ai_model ul text = classify_spec text.
Proof.
  intros ul text Hok. unfold simple_ai_model, classify_spec.
  rewrite !containsb_py_lower by (assumption || (apply keyword_ok; simpl; tauto)).
  reflexivity.
Qed.

(** Python's table on the code points the examples use: the identity is
    a table of the required shape. *)
Lemma identity_table_ok : lower_table_ok (fun c => [c]).
Proof.
  intros c Hc. right. split; [discriminate|]. constructor; [now left | constructor].
Qed.

(** ** The table *)

Open Scope Z_scope.

Lemma in_int64_spec : forall z, in_int64 z = true <-> min_int64 <= z <= max_rowid.
Proof.
  intros z. unfold in_int64. rewrite andb_true_iff, !Z.leb_le. reflexivity.
Qed.

Ltac int64 := apply in_int64_spec; unfold min_int64, max_rowid in *; lia.

Lemma missing_in_range : forall i, in_int64 i = true -> missing i = NotFound (u "Task not found").
Proof. intros i H. unfold missing. now rewrite H. Qed.

Lemma find_id_None : forall rows i,
  find (fun t => Z.eqb (id t) i) rows = None <-> ~ In i (ids rows).
Proof.
  unfold ids. induction rows as [|t rows IH]; intros i; simpl.
  - tauto.
  - destruct (Z.eqb_spec (id t) i) as [E | E].
    + split; [discriminate | intros H; exfalso; apply H; now left].
    + rewrite IH. intuition.
Qed.

Lemma session_get_None : forall rows i,
  session_get rows i = None <-> in_int64 i = false \/ ~ In i (ids rows).
Proof.
  intros rows i. unfold session_get. destruct (in_int64 i).
  - rewrite find_id_None. intuition discriminate.
  - intuition.
Qed.


Lemma session_get_Some : forall rows i t, session_get rows i = Some t ->
  id t = i /\ In t rows /\ in_int64 i = true.
Proof.
  unfold session_get. intros rows i t H. destruct (in_int64 i); [|discriminate].
  apply find_some in H as [Hin Heq]. apply Z.eqb_eq in Heq. auto.
Qed.

(** In a table of int64 ids, an id [session_get] misses is not stored. *)
Lemma session_get_None_stored : forall rows i,
  Forall (fun j => in_int64 j = true) (ids rows) -> session_get rows i = None ->
  ~ In i (ids rows).
Proof.
  intros rows i Hall Hg. apply session_get_None in Hg as [Hg | Hg]; [|exact Hg].
  intros Hi. rewrite Forall_forall in Hall. specialize (Hall i Hi). congruence.
Qed.

Lemma session_get_sql_update : forall rows i t r,
  session_get rows i = Some t -> id r = i -> session_get (sql_update rows i r) i = Some r.
Proof.
  intros rows i t r H Hr. destruct (session_get_Some _ _ _ H) as [_ [_ Hi]].
  revert t H. unfold session_get, sql_update. rewrite Hi.
  induction rows as [|t0 rows IH]; intros t H; simpl in *.
  - discriminate.
  - destruct (Z.eqb (id t0) i) eqn:E; simpl.
    + now rewrite Hr, Z.eqb_refl.
    + rewrite E. eapply IH; eassumption.
Qed.

Lemma ids_sql_update : forall rows i r, id r = i -> ids (sql_update rows i r) = ids rows.
Proof.
  unfold ids, sql_update. induction rows as [|t rows IH]; intros i r Hr; simpl; [reflexivity|].
  f_equal; [|now apply IH]. destruct (Z.eqb_spec (id t) i); congruence.
Qed.

Lemma ids_sql_delete : forall rows i,
  ids (sql_delete rows i) = filter (fun j => negb (Z.eqb j i)) (ids rows).
Proof.
  unfold ids, sql_delete. induction rows as [|t rows IH]; intros i; simpl; [reflexivity|].
  destruct (Z.eqb (id t) i); simpl; now rewrite IH.
Qed.

Lemma session_get_sql_delete : forall rows i, session_get (sql_delete rows i) i = None.
Proof.
  intros rows i. apply session_get_None. right. rewrite ids_sql_delete.
  intros H. apply filter_In in H as [_ H]. now rewrite Z.eqb_refl in H.
Qed.

Lemma sql_delete_fresh : forall rows i, ~ In i (ids rows) -> sql_delete rows i = rows.
Proof.
  unfold sql_delete, ids. induction rows as [|t rows IH]; intros i H; simpl; [reflexivity|].
  destruct (Z.eqb_spec (id t) i) as [E | E]; [exfalso; apply H; now left|].
  simpl. f_equal. apply IH. intros Hi. apply H. now right.
Qed.

Lemma Forall_filter_Z : forall (P : Z -> Prop) f l, Forall P l -> Forall P (filter f l).
Proof.
  intros P f l H. rewrite Forall_forall in *. intros x Hx. apply filter_In in Hx as [Hx _].
  now apply H.
Qed.

(** *** New rowids *)

Lemma fold_max_ge : forall l a, a <= fold_left Z.max l a /\
  forall j, In j l -> j <= fold_left Z.max l a.
Proof.
  induction l as [|x l IH]; intros a; simpl.
  - split; [lia | tauto].
  - destruct (IH (Z.max a x)) as [H1 H2]. split; [lia|].
    intros j [<- | Hj]; [lia | now apply H2].
Qed.

Lemma fold_max_in : forall l a, fold_left Z.max l a = a \/ In (fold_left Z.max l a) l.
Proof.
  induction l as [|x l IH]; intros a; simpl; [now left|].
  destruct (IH (Z.max a x)) as [H | H]; [|now right; right].
  rewrite H. destruct (Z.max_spec a x) as [[_ ->] | [_ ->]]; [now right; left | now left].
Qed.

Lemma random_rowid_bounds : forall v, 1 <= Z.land v random_rowid_mask + 1 <= 2 ^ 62.
Proof.
  intros v. replace random_rowid_mask with (Z.ones 62) by reflexivity.
  rewrite Z.land_ones by lia.
  pose proof (Z.mod_pos_bound v (2 ^ 62) ltac:(reflexivity)). lia.
Qed.

(** The three ways SQLite picks a rowid. *)
Lemma next_rowid_cases : forall rnd rows i, next_rowid rnd rows = Some i ->
  (ids rows = [] /\ i = 1) \/
  (exists m, In m (ids rows) /\ m < max_rowid /\ i = m + 1 /\
     forall j, In j (ids rows) -> j <= m) \/
  (1 <= i <= 2 ^ 62 /\ ~ In i (ids rows) /\ exists j, In j (ids rows) /\ max_rowid <= j).
Proof.
  intros rnd rows i. unfold next_rowid.
  destruct (ids rows) as [|x is].
  - intros H. injection H as <-. now left.
  - destruct (fold_max_ge is x) as [H1 H2].
    assert (Hin : In (fold_left Z.max is x) (x :: is)).
    { destruct (fold_max_in is x) as [E | E]; [rewrite E; now left | now right]. }
    destruct (Z.ltb_spec (fold_left Z.max is x) max_rowid) as [Hm | Hm].
    + intros H. injection H as <-. right. left. exists (fold_left Z.max is x).
      split; [exact Hin | split; [exact Hm | split; [reflexivity|]]].
      intros j [<- | Hj]; [exact H1 | now apply H2].
    + intros H. right. right. apply find_some in H as [Hc Hnew].
      apply in_map_iff in Hc as [k [<- _]].
      split; [apply random_rowid_bounds|]. split; [|now exists (fold_left Z.max is x)].
      intros Hi. apply negb_true_iff in Hnew.
      assert (Hex : existsb (Z.eqb (Z.land (rnd k) random_rowid_mask + 1)) (x :: is) = true).
      { apply existsb_exists. eexists. split; [exact Hi | apply Z.eqb_refl]. }
      congruence.
Qed.

Lemma next_rowid_fresh : forall rnd rows i, next_rowid rnd rows = Some i -> ~ In i (ids rows).
Proof.
  intros rnd rows i H.
  destruct (next_rowid_cases _ _ _ H) as [[E _] | [[m [_ [_ [-> Hle]]]] | [_ [Hn _]]]].
  - rewrite E. simpl. tauto.
  - intros Hin. specialize (Hle _ Hin). lia.
  - exact Hn.
Qed.

Lemma next_rowid_gt : forall rnd rows i, next_rowid rnd rows = Some i ->
  (forall j, In j (ids rows) -> j < max_rowid) -> forall j, In j (ids rows) -> j < i.
Proof.
  intros rnd rows i H Hmax.
  destruct (next_rowid_cases _ _ _ H) as [[E _] | [[m [_ [_ [-> Hle]]]] | [_ [_ [k [Hk Hge]]]]]].
  - rewrite E. simpl. tauto.
  - intros j Hj. specialize (Hle _ Hj). lia.
  - specialize (Hmax k Hk). lia.
Qed.


(** Below [MAX_ROWID] no random value is drawn. *)
Lemma next_rowid_below : forall rnd rnd' rows,
  (forall j, In j (ids rows) -> j < max_rowid) -> next_rowid rnd rows = next_rowid rnd' rows.
Proof.
  intros rnd rnd' rows. unfold next_rowid. destruct (ids rows) as [|x is]; [reflexivity|].
  intros Hmax. assert (Hm : fold_left Z.max is x < max_rowid).
  { destruct (fold_max_in is x) as [E | E]; apply Hmax; [rewrite E; now left | now right]. }
  now rewrite (proj2 (Z.ltb_lt _ _) Hm).
Qed.

Lemma next_rowid_int64 : forall rnd rows i, next_rowid rnd rows = Some i ->
  Forall (fun j => in_int64 j = true) (ids rows) -> in_int64 i = true.
Proof.
  intros rnd rows i H Hall. rewrite Forall_forall in Hall.
  destruct (next_rowid_cases _ _ _ H) as [[_ ->] | [[m [Hm [Hlt [-> _]]]] | [Hb _]]].
  - reflexivity.
  - apply Hall, in_int64_spec in Hm. int64.
  - assert (2 ^ 62 < max_rowid) by reflexivity. int64.
Qed.

Lemma next_rowid_range : forall rnd rows i, next_rowid rnd rows = Some i ->
  Forall (fun j => 1 <= j <= max_rowid) (ids rows) -> 1 <= i <= max_rowid.
Proof.
  intros rnd rows i H Hall. rewrite Forall_forall in Hall.
  destruct (next_rowid_cases _ _ _ H) as [[_ ->] | [[m [Hm [Hlt [-> _]]]] | [Hb _]]].
  - unfold max_rowid. lia.
  - specialize (Hall m Hm). lia.
  - assert (2 ^ 62 < max_rowid) by reflexivity. lia.
Qed.

(** *** Inserting a row *)

Lemma insert_row_split : forall r rows, exists pre post,
  rows = pre ++ post /\ insert_row r rows = pre ++ r :: post.
Proof.
  intros r. induction rows as [|t rows IH]; simpl.
  - exists [], []. auto.
  - destruct (id r <? id t).
    + exists [], (t :: rows). auto.
    + destruct IH as [pre [post [E1 E2]]]. exists (t :: pre), post.
      rewrite E2, E1. auto.
Qed.

Lemma ids_insert_row : forall r rows, exists pre post,
  ids rows = pre ++ post /\ ids (insert_row r rows) = pre ++ id r :: post.
Proof.
  intros r rows. destruct (insert_row_split r rows) as [pre [post [E1 E2]]].
  exists (ids pre), (ids post). unfold ids. rewrite E2, E1, !map_app. auto.
Qed.

Lemma in_ids_insert_row : forall r rows j,
  In j (ids (insert_row r rows)) <-> j = id r \/ In j (ids rows).
Proof.
  intros r rows j. destruct (ids_insert_row r rows) as [pre [post [E1 E2]]].
  rewrite E1, E2, !in_app_iff. simpl. split.
  - intros [H | [H | H]]; auto.
  - intros [H | [H | H]]; auto.
Qed.

Lemma NoDup_insert_row : forall r rows, NoDup (ids rows) -> ~ In (id r) (ids rows) ->
  NoDup (ids (insert_row r rows)).
Proof.
  intros r rows Hnd Hr. destruct (ids_insert_row r rows) as [pre [post [E1 E2]]].
  rewrite E2. rewrite E1 in Hnd, Hr. apply Permutation_NoDup with (id r :: pre ++ post).
  - apply Permutation_middle.
  - constructor; assumption.
Qed.

Lemma session_get_insert_fresh : forall r rows,
  in_int64 (id r) = true -> ~ In (id r) (ids rows) ->
  session_get (insert_row r rows) (id r) = Some r.
Proof.
  intros r rows Hi. unfold session_get. rewrite Hi. unfold ids.
  induction rows as [|t rows IH]; intros Hr; simpl in *.
  - now rewrite Z.eqb_refl.
  - destruct (id r <? id t); simpl.
    + now rewrite Z.eqb_refl.
    + destruct (Z.eqb_spec (id t) (id r)) as [E | E]; [exfalso; apply Hr; now left|].
      apply IH. tauto.
Qed.

Lemma sql_delete_insert_fresh : forall r rows, ~ In (id r) (ids rows) ->
  sql_delete (insert_row r rows) (id r) = rows.
Proof.
  intros r rows H. destruct (insert_row_split r rows) as [pre [post [E1 E2]]].
  rewrite E2. unfold sql_delete. rewrite filter_app. simpl. rewrite Z.eqb_refl. simpl.
  rewrite <- filter_app, <- E1. exact (sql_delete_fresh rows (id r) H).
Qed.

Lemma insert_row_last : forall r rows, (forall j, In j (ids rows) -> j < id r) ->
  insert_row r rows = rows ++ [r].
Proof.
  intros r. induction rows as [|t rows IH]; intros H; simpl; [reflexivity|].
  destruct (Z.ltb_spec (id r) (id t)).
  - specialize (H (id t) (or_introl eq_refl)). lia.
  - f_equal. apply IH. intros j Hj. apply H. simpl. now right.
Qed.

Lemma StronglySorted_insert_row : forall r rows,
  StronglySorted Z.lt (ids rows) -> ~ In (id r) (ids rows) ->
  StronglySorted Z.lt (ids (insert_row r rows)).
Proof.
  intros r. induction rows as [|t rows IH]; intros Hs Hr; simpl.
  - repeat constructor.
  - unfold ids in *. simpl in *. apply StronglySorted_inv in Hs as [Hs Ht].
    destruct (Z.ltb_spec (id r) (id t)) as [Hlt | Hge]; simpl.
    + constructor; [constructor; assumption|]. constructor; [exact Hlt|].
      eapply Forall_impl; [|exact Ht]. intros y Hy. simpl in Hy. lia.
    + constructor; [apply IH; [exact Hs | tauto]|].
      apply Forall_forall. intros y Hy.
      apply (in_ids_insert_row r rows y) in Hy as [-> | Hy].
      * assert (id t <> id r) by tauto. lia.
      * exact (proj1 (Forall_forall _ _) Ht y Hy).
Qed.

Lemma Forall_insert_row : forall (P : Z -> Prop) r rows,
  P (id r) -> Forall P (ids rows) -> Forall P (ids (insert_row r rows)).
Proof.
  intros P r rows Hr H. rewrite Forall_forall in *. intros j Hj.
  apply in_ids_insert_row in Hj as [-> | Hj]; [exact Hr | now apply H].
Qed.

(** *** Handlers *)

Lemma create_task_cases : forall rnd rows tc,
  create_task rnd rows tc = (Err UnicodeEncodeError, rows) \/
  create_task rnd rows tc = (Err SqliteFull, rows) \/
  exists row, snd (create_task rnd rows tc) = insert_row row rows /\
    ~ In (id row) (ids rows) /\ next_rowid rnd rows = Some (id row).
Proof.
  intros rnd rows tc. unfold create_task.
  destruct (negb _); [now left|].
  destruct (next_rowid rnd rows) as [i|] eqn:E; [|now right; left].
  right; right. exists (mk_task i (create_title tc) (create_description tc) (create_is_completed tc)).
  split; [destruct (in_int64 i); reflexivity|].
  simpl. split; [exact (next_rowid_fresh _ _ _ E) | reflexivity].
Qed.

Lemma post_task_Ok : forall rows b rnd t rows',
  post_task rows b rnd = (Ok (RTask t), rows') ->
  rows' = insert_row t rows /\ next_rowid rnd rows = Some (id t) /\
  ~ In (id t) (ids rows) /\ in_int64 (id t) = true.
Proof.
  intros rows b rnd t rows'. unfold post_task, create_task.
  destruct (validate_create b) as [tc|]; [|discriminate].
  destruct (negb _); [discriminate|].
  destruct (next_rowid rnd rows) as [i|] eqn:E; [|discriminate].
  destruct (in_int64 i) eqn:Hi; [|discriminate].
  intros H. injection H as <- <-. simpl. split; [reflexivity|]. split; [reflexivity|].
  split; [exact (next_rowid_fresh _ _ _ E) | exact Hi].
Qed.

Lemma delete_inserted : forall rows t,
  in_int64 (id t) = true -> ~ In (id t) (ids rows) ->
  delete_task (insert_row t rows) (id t) = (Ok (ROk true), rows).
Proof.
  intros rows t Hi H. unfold delete_task. rewrite session_get_insert_fresh by assumption.
  now rewrite sql_delete_insert_fresh.
Qed.

(** The instance [update_task] flushes, by the fields the body sends. *)
Lemma flush_patch : forall t b,
  field_encodable (body_title b) = true -> field_encodable (body_description b) = true ->
  flush (sqlmodel_update (load t) (model_dump_exclude_unset (validate_update b)))
        (model_dump_exclude_unset (validate_update b)) =
  match body_title b, body_is_completed b with
  | Null, _ | _, Null => inl IntegrityError
  | tf, cf =>
      inr (mk_task (id t)
              (match tf with Val s => s | _ => title t end)
              (match body_description b with
               | Absent => description t | Null => None | Val d => Some d end)
              (match cf with Val c => c | _ => is_completed t end))
  end.
Proof.
  intros t [tf df cf] Ht Hd.
  destruct tf, df, cf; simpl in Ht, Hd; unfold flush; simpl;
    try rewrite Ht; try rewrite Hd; reflexivity.
Qed.

Lemma sqlmodel_update_id : forall o l, obj_id (sqlmodel_update o l) = obj_id o.
Proof.
  intros o l. unfold sqlmodel_update. revert o.
  induction l as [|e l IH]; intros o; simpl; [reflexivity|].
  rewrite IH. destruct e; reflexivity.
Qed.

Lemma flush_id : forall o d r, flush o d = inr r -> id r = obj_id o.
Proof.
  intros [i t d c] dirty r. unfold flush. simpl.
  destruct (negb _); [discriminate|].
  destruct t, c; try discriminate. intros H. now injection H as <-.
Qed.

(** Flushing the same assignments over the row a flush wrote writes it again. *)
Lemma flush_again : forall t b r,
  flush (sqlmodel_update (load t) (model_dump_exclude_unset (validate_update b)))
        (model_dump_exclude_unset (validate_update b)) = inr r ->
  flush (sqlmodel_update (load r) (model_dump_exclude_unset (validate_update b)))
        (model_dump_exclude_unset (validate_update b)) = inr r.
Proof.
  intros t [tf df cf] r. unfold flush.
  destruct (negb (forallb entry_encodable
                   (model_dump_exclude_unset (validate_update (mk_body tf df cf)))));
    [intros H; discriminate H|].
  destruct tf, df, cf; simpl; intros H; try discriminate H; injection H as <-; reflexivity.
Qed.

(** [read_tasks] when the query is within the documented range. *)
Lemma read_tasks_in_range : forall rows offset limit,
  0 <= offset <= max_rowid -> 0 <= limit <= 100 ->
  exists ts, read_tasks rows offset limit = (Ok (RTaskList ts), rows) /\
    ts = firstn (Z.to_nat limit) (skipn (Z.to_nat offset) rows) /\
    (List.length ts <= Z.to_nat limit)%nat /\
    ((List.length rows <= Z.to_nat offset)%nat -> ts = []).
Proof.
  intros rows offset limit Ho Hl. unfold read_tasks, sql_limit_offset.
  replace (100 <? limit) with false by (symmetry; apply Z.ltb_ge; lia).
  replace (in_int64 offset) with true by (symmetry; int64).
  replace (in_int64 limit) with true by (symmetry; int64).
  replace (limit <? 0) with false by (symmetry; apply Z.ltb_ge; lia).
  eexists. split; [reflexivity|]. split; [reflexivity|]. split.
  - rewrite length_firstn. lia.
  - intros H. rewrite skipn_all2 by exact H. apply firstn_nil.
Qed.

Lemma filter_not_in : forall i l,
  ~ In i l -> filter (fun j => negb (Z.eqb j i)) l = l.
Proof.
  intros i l. induction l as [|x l IH]; intros H; simpl; [reflexivity|].
  destruct (Z.eqb_spec x i) as [-> | E]; [exfalso; apply H; now left|].
  simpl. f_equal. apply IH. intros Hi. apply H. now right.
Qed.

(** One request keeps the ids of the table distinct and int64, and changes
    them only as [id_effect] says. *)
Lemma handle_ids : forall ul rows rq,
  NoDup (ids rows) -> Forall (fun j => in_int64 j = true) (ids rows) ->
  NoDup (ids (snd (handle ul rows rq))) /\
  Forall (fun j => in_int64 j = true) (ids (snd (handle ul rows rq))) /\
  id_effect rq rows (snd (handle ul rows rq)).
Proof.
  intros ul rows rq Hnd Hall. destruct rq as [b rnd | o l | i | i b | i | d]; simpl.
  - unfold post_task. destruct (validate_create b) as [tc|]; [|auto].
    destruct (create_task_cases rnd rows tc) as [E | [E | [row [E [Hf Hn]]]]].
    + rewrite E. auto.
    + rewrite E. auto.
    + rewrite E. split; [now apply NoDup_insert_row|]. split.
      * apply Forall_insert_row; [exact (next_rowid_int64 _ _ _ Hn Hall) | exact Hall].
      * right. destruct (ids_insert_row row rows) as [pre [post [E1 E2]]].
        exists (id row), pre, post. auto.
  - unfold read_tasks. destruct (100 <? l); [simpl; auto|].
    destruct (in_int64 o && in_int64 l); simpl; auto.
  - unfold read_task. destruct (session_get rows i); simpl; auto.
  - unfold patch_task, update_task. destruct (session_get rows i) as [t|] eqn:Hg; simpl; [|auto].
    destruct (flush _ _) as [e|r] eqn:Hf; simpl; [auto|].
    apply flush_id in Hf. rewrite sqlmodel_update_id in Hf. simpl in Hf.
    apply session_get_Some in Hg as [Hid _].
    rewrite ids_sql_update by congruence. auto.
  - unfold delete_task. destruct (session_get rows i) eqn:Hg; simpl.
    + rewrite ids_sql_delete. split; [now apply NoDup_filter|].
      split; [now apply Forall_filter_Z | reflexivity].
    + apply session_get_None_stored in Hg; [|exact Hall].
      rewrite filter_not_in by exact Hg. auto.
  - unfold analyze_task_sentiment. destruct (utf8_encodable d); simpl; auto.
Qed.

Lemma run_ids_ok : forall ul rqs rows,
  NoDup (ids rows) -> Forall (fun j => in_int64 j = true) (ids rows) ->
  NoDup (ids (run ul rows rqs)) /\ Forall (fun j => in_int64 j = true) (ids (run ul rows rqs)).
Proof.
  intros ul rqs. induction rqs as [|rq rqs IH]; intros rows Hnd Hall; simpl; [auto|].
  destruct (handle_ids ul rows rq Hnd Hall) as [H1 [H2 _]]. now apply IH.
Qed.

(** ** Claims *)

(** C1 (counterexample).  A patch that sends [is_completed: null] for an
    existing task does not return an updated task: the flush writes [NULL]
    into a [NOT NULL] column and the call fails. *)
Lemma patch_null_is_completed_fails :
  session_get sample_db 1 <> None /\
  patch_task sample_db 1 (mk_body Absent Absent Null) = (Err IntegrityError, sample_db).
Proof. split; [discriminate | reflexivity]. Qed.

(** C1 (amended).  For an existing task and a patch that sets neither
    [title] nor [is_completed] to [null] and whose strings SQLite can bind
    (no lone surrogate), the update succeeds: every field sent is
    overwritten, every field absent keeps its stored value, the id is kept,
    and the returned task is the row now stored. *)
Theorem patch_task_partial : forall rows i t b,
  session_get rows i = Some t ->
  body_title b <> Null -> body_is_completed b <> Null ->
  field_encodable (body_title b) = true -> field_encodable (body_description b) = true ->
  exists t',
    patch_task rows i b = (Ok (RTask t'), sql_update rows i t') /\
    session_get (sql_update rows i t') i = Some t' /\
    id t' = i /\
    title t' = match body_title b with Val s => s | _ => title t end /\
    description t' = match body_description b with
                     | Absent => description t | Null => None | Val d => Some d end /\
    is_completed t' = match body_is_completed b with Val c => c | _ => is_completed t end.
Proof.
  intros rows i t b Hget Ht Hc Het Hed.
  destruct (session_get_Some _ _ _ Hget) as [Hid _].
  unfold patch_task, update_task. rewrite Hget, (flush_patch t b Het Hed).
  destruct b as [tf df cf]; simpl in *.
  destruct tf; [| contradiction |]; (destruct cf; [| contradiction |]);
  (eexists; split; [reflexivity | split; [apply (session_get_sql_update _ _ t); auto | auto]]).
Qed.

Lemma patch_task_partial_witness :
  exists t', patch_task sample_db 1 (mk_body Absent Absent (Val true)) =
             (Ok (RTask t'), sql_update sample_db 1 t') /\
    title t' = u "Buy milk" /\ description t' = None /\ is_completed t' = true.
Proof.
  destruct (patch_task_partial sample_db 1 (mk_task 1 (u "Buy milk") None false)
              (mk_body Absent Absent (Val true)))
    as [t' [Hp [_ [_ [Ht [Hd Hc]]]]]];
    [reflexivity | discriminate | discriminate | reflexivity | reflexivity |].
  exists t'. simpl in Ht, Hd, Hc. auto.
Defined.

(** C2 (code bug).  On the spec's own examples the classifier takes the
    branch the spec describes, but the label it returns is the literal of
    the source file, which is not the spec's label: ["Critical ðŸ”´"] is not
    ["Critical 🔴"], and likewise for the other two labels. *)
Theorem simple_ai_model_spec_examples : forall ul,
  simple_ai_model ul (u "This is urgent, system failure") = critical_label /\
  critical_label <> spec_critical_label /\
  simple_ai_model ul (u "I want to learn Go") = growth_label /\
  growth_label <> spec_growth_label /\
  simple_ai_model ul [] = neutral_label /\
  neutral_label <> spec_neutral_label.
Proof.
  intros ul.
  repeat split; try reflexivity; vm_compute; congruence.
Qed.




(** C4.  After a successful create, get-by-id of the new id returns the
    same task the create returned. *)
Theorem post_then_get : forall rows b rnd t rows',
  post_task rows b rnd = (Ok (RTask t), rows') ->
  read_task rows' (id t) = (Ok (RTask t), rows').
Proof.
  intros rows b rnd t rows' H. apply post_task_Ok in H as [-> [_ [Hf Hi]]].
  unfold read_task. now rewrite session_get_insert_fresh.
Qed.

Lemma post_then_get_witness :
  read_task (sample_db ++ [mk_task 3 (u "Buy milk") None false]) 3 =
  (Ok (RTask (mk_task 3 (u "Buy milk") None false)),
   sample_db ++ [mk_task 3 (u "Buy milk") None false]).
Proof.
  exact (post_then_get sample_db (body_of_title (u "Buy milk")) rnd0
           (mk_task 3 (u "Buy milk") None false)
           (sample_db ++ [mk_task 3 (u "Buy milk") None false]) eq_refl).
Defined.

(** C5 (code bug).  [Query(le=100)] bounds [limit] only from above: a
    negative limit passes validation, and SQLite reads it as "no limit", so
    the call returns every row from the offset on, more than [limit]. *)
Theorem read_tasks_negative_limit :
  -1 <= 100 /\
  read_tasks sample_db 0 (-1) = (Ok (RTaskList sample_db), sample_db) /\
  List.length sample_db = 2%nat.
Proof. split; [lia | split; reflexivity]. Qed.




(** C7.  After a successful delete, get-by-id and a second delete of the
    same id fail with [NotFound]. *)
Theorem delete_then_not_found : forall rows i,
  fst (delete_task rows i) = Ok (ROk true) ->
  fst (read_task (snd (delete_task rows i)) i) = not_found /\
  fst (delete_task (snd (delete_task rows i)) i) = not_found.
Proof.
  intros rows i. unfold read_task, delete_task.
  destruct (session_get rows i) eqn:Hg; simpl; [|discriminate].
  intros _. apply session_get_Some in Hg as [_ [_ Hi]].
  rewrite session_get_sql_delete. simpl. unfold not_found.
  now rewrite (missing_in_range i Hi).
Qed.

Lemma delete_then_not_found_witness :
  fst (read_task (snd (delete_task sample_db 1)) 1) = not_found /\
  fst (delete_task (snd (delete_task sample_db 1)) 1) = not_found.
Proof. apply delete_then_not_found. reflexivity. Defined.

(** C8.  In every table the application can reach, ids are distinct; the
    next request keeps them distinct, creates add one fresh id, deletes
    remove only the deleted id, and no other request changes an id. *)
Theorem ids_unique_and_stable : forall ul rqs rq,
  NoDup (ids (run ul [] rqs)) /\
  NoDup (ids (snd (handle ul (run ul [] rqs) rq))) /\
  id_effect rq (run ul [] rqs) (snd (handle ul (run ul [] rqs) rq)).
Proof.
  intros ul rqs rq.
  destruct (run_ids_ok ul rqs [] (NoDup_nil _) (Forall_nil _)) as [Hnd Hall].
  destruct (handle_ids ul _ rq Hnd Hall) as [H1 [_ H3]]. auto.
Qed.

(** C9 (counterexample).  An explicit [title: null] does not store a null
    title: the flush is refused and the stored title stays ["Buy milk"]. *)
Lemma patch_null_title_not_stored :
  patch_task sample_db 1 (mk_body Null Absent Absent) = (Err IntegrityError, sample_db) /\
  session_get sample_db 1 = Some (mk_task 1 (u "Buy milk") None false).
Proof. split; reflexivity. Qed.

(** C9 (amended).  On an existing task, an explicit [description: null]
    overwrites the stored description with [null] (only an absent field is
    kept), provided the title sent, if any, can be bound; an explicit
    [null] for [title] or [is_completed] is never stored: the call does not
    succeed and the table is unchanged. *)
Theorem patch_explicit_null : forall rows i t b,
  session_get rows i = Some t ->
  (body_description b = Null -> body_title b <> Null -> body_is_completed b <> Null ->
   field_encodable (body_title b) = true ->
   exists t', patch_task rows i b = (Ok (RTask t'), sql_update rows i t') /\
     description t' = None /\ session_get (sql_update rows i t') i = Some t') /\
  (body_title b = Null \/ body_is_completed b = Null ->
   (forall r, fst (patch_task rows i b) <> Ok r) /\ snd (patch_task rows i b) = rows).
Proof.
  intros rows i t [tf df cf] Hget. destruct (session_get_Some _ _ _ Hget) as [Hid _].
  unfold patch_task, update_task. rewrite Hget. split.
  - intros Hd Ht Hc Het. simpl in Hd, Ht, Hc, Het. subst df.
    rewrite (flush_patch t (mk_body tf Null cf) Het eq_refl). simpl.
    destruct tf; [| contradiction |]; (destruct cf; [| contradiction |]);
    (eexists; split; [reflexivity | split; [reflexivity |
       apply (session_get_sql_update _ _ t); auto]]).
  - intros Hn. destruct (flush _ _) as [e|r] eqn:Hf; simpl.
    + split; [intros r' H; discriminate H | reflexivity].
    + exfalso. revert Hf. unfold flush. destruct (negb _); [intros H; discriminate H|].
      destruct Hn as [Hn | Hn]; simpl in Hn; subst; [destruct df, cf | destruct tf, df]; simpl;
        intros H; discriminate H.
Qed.

Lemma patch_explicit_null_witness :
  exists t', patch_task sample_db 2 (mk_body Absent Null Absent) =
             (Ok (RTask t'), sql_update sample_db 2 t') /\ description t' = None.
Proof.
  destruct (patch_explicit_null sample_db 2 (mk_task 2 (u "Fix error") (Some (u "prod")) false)
              (mk_body Absent Null Absent)) as [H _]; [reflexivity|].
  destruct H as [t' [Hp [Hd _]]]; [reflexivity | discriminate | discriminate | reflexivity |].
  exists t'. auto.
Defined.

(** C10.  A get-by-id, update or delete that fails with [NotFound] leaves
    the table as it was. *)
Theorem not_found_leaves_table : forall rows i b,
  (fst (read_task rows i) = not_found -> snd (read_task rows i) = rows) /\
  (fst (patch_task rows i b) = not_found -> snd (patch_task rows i b) = rows) /\
  (fst (delete_task rows i) = not_found -> snd (delete_task rows i) = rows).
Proof.
  intros rows i b. unfold read_task, patch_task, update_task, delete_task.
  destruct (session_get rows i); simpl; [|auto].
  split; [auto|]. split; [|discriminate].
  destruct (flush _ _); simpl; [auto | discriminate].
Qed.

Lemma not_found_leaves_table_witness :
  snd (read_task sample_db 7) = sample_db /\
  snd (patch_task sample_db 7 empty_patch) = sample_db /\
  snd (delete_task sample_db 7) = sample_db.
Proof.
  destruct (not_found_leaves_table sample_db 7 empty_patch) as [H1 [H2 H3]].
  split; [apply H1; reflexivity | split; [apply H2; reflexivity | apply H3; reflexivity]].
Defined.

(** * Further properties of the code *)

(** ** Helpers *)

Lemma lower_cp_upper : forall ul c, lower_cp ul (ascii_upper c) = lower_cp ul c.
Proof.
  intros ul c. unfold lower_cp, ascii_upper, ascii_lower.
  destruct (N.leb_spec 97 c), (N.leb_spec c 122); simpl;
  try (destruct (N.ltb_spec c 128); [|reflexivity];
       destruct (N.leb_spec 65 c), (N.leb_spec c 90); simpl; reflexivity || lia).
  destruct (N.ltb_spec (c - 32) 128), (N.ltb_spec c 128); try lia.
  destruct (N.leb_spec 65 (c - 32)), (N.leb_spec (c - 32) 90),
           (N.leb_spec 65 c), (N.leb_spec c 90); simpl; try lia.
  do 2 f_equal. lia.
Qed.

Lemma firstn_add_skipn : forall (A : Type) (m n : nat) (l : list A),
  firstn (m + n) l = firstn m l ++ firstn n (skipn m l).
Proof.
  intros A m. induction m as [|m IH]; intros n l; [reflexivity|].
  destruct l as [|x l]; simpl; [now destruct n|]. now rewrite IH.
Qed.

Lemma nodup_ids_unique : forall rows t1 t2,
  NoDup (ids rows) -> In t1 rows -> In t2 rows -> id t1 = id t2 -> t1 = t2.
Proof.
  unfold ids. induction rows as [|t rows IH]; intros t1 t2 Hnd H1 H2 Hid; [contradiction|].
  simpl in Hnd. inversion Hnd as [|x l Hx Hnd']; subst.
  destruct H1 as [<- | H1], H2 as [<- | H2]; auto.
  - exfalso. apply Hx. rewrite Hid. now apply in_map.
  - exfalso. apply Hx. rewrite <- Hid. now apply in_map.
Qed.

Lemma sql_update_same : forall rows i t,
  NoDup (ids rows) -> session_get rows i = Some t -> sql_update rows i t = rows.
Proof.
  intros rows i t Hnd Hg. destruct (session_get_Some _ _ _ Hg) as [Hid [Hin _]].
  unfold sql_update. rewrite <- (map_id rows) at 2. apply map_ext_in.
  intros t0 H0. destruct (Z.eqb_spec (id t0) i); [|reflexivity].
  apply (nodup_ids_unique rows); auto. congruence.
Qed.

Lemma sql_update_twice : forall rows i r,
  id r = i -> sql_update (sql_update rows i r) i r = sql_update rows i r.
Proof.
  intros rows i r Hr. unfold sql_update. rewrite map_map. apply map_ext.
  intros t. destruct (Z.eqb (id t) i) eqn:E; [|now rewrite E].
  now rewrite Hr, Z.eqb_refl.
Qed.

Lemma session_get_sql_update_other : forall rows i j r,
  id r = i -> j <> i -> session_get (sql_update rows i r) j = session_get rows j.
Proof.
  unfold session_get, sql_update. intros rows i j r Hr Hji.
  destruct (in_int64 j); [|reflexivity]. revert i r Hr Hji.
  induction rows as [|t rows IH]; intros i r Hr Hji; simpl; [reflexivity|].
  destruct (Z.eqb_spec (id t) i) as [E | E]; simpl.
  - rewrite Hr. replace (Z.eqb i j) with false by (symmetry; apply Z.eqb_neq; congruence).
    replace (Z.eqb (id t) j) with false by (symmetry; apply Z.eqb_neq; congruence).
    now apply IH.
  - destruct (Z.eqb (id t) j); [reflexivity | now apply IH].
Qed.

Lemma session_get_sql_delete_other : forall rows i j,
  j <> i -> session_get (sql_delete rows i) j = session_get rows j.
Proof.
  unfold session_get, sql_delete. intros rows i j Hji.
  destruct (in_int64 j); [|reflexivity]. revert i Hji.
  induction rows as [|t rows IH]; intros i Hji; simpl; [reflexivity|].
  destruct (Z.eqb_spec (id t) i) as [E | E]; simpl.
  - replace (Z.eqb (id t) j) with false by (symmetry; apply Z.eqb_neq; congruence).
    now apply IH.
  - destruct (Z.eqb (id t) j); [reflexivity | now apply IH].
Qed.

Lemma StronglySorted_filter : forall (R : Z -> Z -> Prop) f l,
  StronglySorted R l -> StronglySorted R (filter f l).
Proof.
  intros R f l. induction l as [|y l IH]; intros Hs; simpl; [constructor|].
  apply StronglySorted_inv in Hs as [Hs Hy].
  destruct (f y); [|now apply IH]. constructor; [now apply IH|].
  apply Forall_forall. intros z Hz. apply filter_In in Hz as [Hz _].
  exact (proj1 (Forall_forall _ _) Hy z Hz).
Qed.

(** ** Classifier *)

(** The classifier's match does not depend on ASCII case: uppercasing the
    text never changes the label. *)
Theorem simple_ai_model_upper_invariant : forall ul text,
  simple_ai_model ul (map ascii_upper text) = simple_ai_model ul text.
Proof.
  intros ul text.
  assert (H : py_lower ul (map ascii_upper text) = py_lower ul text).
  { unfold py_lower. induction text as [|c text IH]; [reflexivity|].
    simpl. now rewrite lower_cp_upper, IH. }
  unfold simple_ai_model. now rewrite H.
Qed.

Lemma simple_ai_model_matches_spec_witness :
  simple_ai_model (fun c => [c]) (u "Buy MILK") = classify_spec (u "Buy MILK").
Proof. apply simple_ai_model_matches_spec. exact identity_table_ok. Defined.

(** ** Listing *)

(** Every accepted listing is a contiguous run of the stored rows, in their
    stored order, and leaves the table unchanged. *)
Theorem read_tasks_slice : forall rows offset limit,
  limit <= 100 -> in_int64 offset = true -> in_int64 limit = true ->
  exists pre ts post, read_tasks rows offset limit = (Ok (RTaskList ts), rows) /\
    rows = pre ++ ts ++ post.
Proof.
  intros rows offset limit H Ho Hl. unfold read_tasks, sql_limit_offset.
  replace (100 <? limit) with false by (symmetry; apply Z.ltb_ge; exact H).
  rewrite Ho, Hl. simpl.
  exists (firstn (Z.to_nat offset) rows).
  destruct (limit <? 0).
  - exists (skipn (Z.to_nat offset) rows), []. rewrite app_nil_r, firstn_skipn. auto.
  - exists (firstn (Z.to_nat limit) (skipn (Z.to_nat offset) rows)),
      (skipn (Z.to_nat limit) (skipn (Z.to_nat offset) rows)).
    rewrite firstn_skipn, firstn_skipn. auto.
Qed.

Lemma read_tasks_slice_witness :
  exists pre ts post, read_tasks sample_db 1 5 = (Ok (RTaskList ts), sample_db) /\
    sample_db = pre ++ ts ++ post.
Proof. apply read_tasks_slice; [lia | reflexivity | reflexivity]. Defined.



(** Two consecutive pages are the page that spans both: paging with
    [offset := offset + limit] neither skips nor repeats a row. *)
Theorem read_tasks_pages_compose : forall rows offset a b,
  0 <= offset -> 0 <= a -> 0 <= b -> a + b <= 100 -> offset + a <= max_rowid ->
  exists p1 p2,
    read_tasks rows offset a = (Ok (RTaskList p1), rows) /\
    read_tasks rows (offset + a) b = (Ok (RTaskList p2), rows) /\
    read_tasks rows offset (a + b) = (Ok (RTaskList (p1 ++ p2)), rows).
Proof.
  intros rows offset a b Ho Ha Hb Hab Hmax. unfold read_tasks, sql_limit_offset.
  replace (100 <? a) with false by (symmetry; apply Z.ltb_ge; lia).
  replace (100 <? b) with false by (symmetry; apply Z.ltb_ge; lia).
  replace (100 <? a + b) with false by (symmetry; apply Z.ltb_ge; lia).
  replace (in_int64 offset) with true by (symmetry; int64).
  replace (in_int64 (offset + a)) with true by (symmetry; int64).
  replace (in_int64 a) with true by (symmetry; int64).
  replace (in_int64 b) with true by (symmetry; int64).
  replace (in_int64 (a + b)) with true by (symmetry; int64).
  replace (a <? 0) with false by (symmetry; apply Z.ltb_ge; lia).
  replace (b <? 0) with false by (symmetry; apply Z.ltb_ge; lia).
  replace (a + b <? 0) with false by (symmetry; apply Z.ltb_ge; lia).
  do 2 eexists. split; [reflexivity|]. split; [reflexivity|].
  rewrite !Z2Nat.inj_add by lia. rewrite firstn_add_skipn, skipn_skipn.
  now rewrite (Nat.add_comm (Z.to_nat a)).
Qed.

Lemma read_tasks_pages_compose_witness :
  exists p1 p2,
    read_tasks sample_db 0 1 = (Ok (RTaskList p1), sample_db) /\
    read_tasks sample_db (0 + 1) 1 = (Ok (RTaskList p2), sample_db) /\
    read_tasks sample_db 0 (1 + 1) = (Ok (RTaskList (p1 ++ p2)), sample_db).
Proof. apply read_tasks_pages_compose; unfold max_rowid; lia. Defined.

Lemma read_tasks_in_range_witness :
  exists ts, read_tasks sample_db 5 10 = (Ok (RTaskList ts), sample_db) /\
    ts = firstn (Z.to_nat 10) (skipn (Z.to_nat 5) sample_db) /\
    (List.length ts <= Z.to_nat 10)%nat /\
    ((List.length sample_db <= Z.to_nat 5)%nat -> ts = []).
Proof. apply read_tasks_in_range; unfold max_rowid; lia. Defined.

(** ** Create, update, delete *)

(** A created task gets a fresh int64 id and is stored in rowid order;
    while every id is below 2^63-1, the new id is larger than all of them
    and the row is appended after every stored row. *)
Theorem post_task_id_greater : forall rows b rnd t rows',
  post_task rows b rnd = (Ok (RTask t), rows') ->
  rows' = insert_row t rows /\ ~ In (id t) (ids rows) /\ in_int64 (id t) = true /\
  ((forall j, In j (ids rows) -> j < max_rowid) ->
   rows' = rows ++ [t] /\ forall j, In j (ids rows) -> j < id t).
Proof.
  intros rows b rnd t rows' H. apply post_task_Ok in H as [-> [E [Hf Hi]]].
  split; [reflexivity|]. split; [exact Hf|]. split; [exact Hi|].
  intros Hmax. pose proof (next_rowid_gt _ _ _ E Hmax) as Hgt.
  split; [now apply insert_row_last | exact Hgt].
Qed.

Lemma post_task_id_greater_witness : ~ In 3 (ids sample_db) /\ in_int64 3 = true.
Proof.
  destruct (post_task_id_greater sample_db (body_of_title (u "a")) rnd0
              (mk_task 3 (u "a") None false) (sample_db ++ [mk_task 3 (u "a") None false])
              eq_refl) as [_ [H1 [H2 _]]].
  split; [exact H1 | exact H2].
Defined.

(** Once the largest id is 2^63-1, a created task gets a fresh id between 1
    and 2^62 (SQLite's random rowid), whatever random values are drawn. *)
Theorem post_task_random_rowid : forall rows b rnd t rows',
  In max_rowid (ids rows) ->
  post_task rows b rnd = (Ok (RTask t), rows') ->
  1 <= id t <= 2 ^ 62 /\ ~ In (id t) (ids rows) /\ rows' = insert_row t rows.
Proof.
  intros rows b rnd t rows' Hm H. apply post_task_Ok in H as [-> [E [Hf _]]].
  destruct (next_rowid_cases _ _ _ E) as [[Hn _] | [[m [_ [Hlt [_ Hle]]]] | [Hb _]]].
  - rewrite Hn in Hm. contradiction.
  - specialize (Hle _ Hm). lia.
  - auto.
Qed.

Lemma post_task_random_rowid_witness :
  1 <= 1 <= 2 ^ 62 /\ ~ In 1 (ids [mk_task max_rowid [] None false]) /\
  [mk_task 1 [] None false; mk_task max_rowid [] None false] =
  insert_row (mk_task 1 [] None false) [mk_task max_rowid [] None false].
Proof.
  exact (post_task_random_rowid [mk_task max_rowid [] None false] (body_of_title []) rnd0
           (mk_task 1 [] None false) [mk_task 1 [] None false; mk_task max_rowid [] None false]
           (or_introl eq_refl) eq_refl).
Defined.

(** While every id is below 2^63-1, a created task is the last row a
    listing reads: offset = the former row count, limit 1. *)
Theorem post_then_list_last : forall rows b rnd t rows',
  (forall j, In j (ids rows) -> j < max_rowid) ->
  Z.of_nat (List.length rows) <= max_rowid ->
  post_task rows b rnd = (Ok (RTask t), rows') ->
  read_tasks rows' (Z.of_nat (List.length rows)) 1 = (Ok (RTaskList [t]), rows').
Proof.
  intros rows b rnd t rows' Hmax Hlen H. apply post_task_Ok in H as [-> [E _]].
  rewrite (insert_row_last t rows (next_rowid_gt _ _ _ E Hmax)).
  unfold read_tasks.
  replace (in_int64 (Z.of_nat (List.length rows))) with true by (symmetry; int64).
  unfold sql_limit_offset. simpl.
  rewrite Nat2Z.id, skipn_app, skipn_all, Nat.sub_diag. reflexivity.
Qed.

Lemma post_then_list_last_witness :
  read_tasks (sample_db ++ [mk_task 3 (u "a") None false]) 2 1 =
  (Ok (RTaskList [mk_task 3 (u "a") None false]), sample_db ++ [mk_task 3 (u "a") None false]).
Proof.
  refine (post_then_list_last sample_db (body_of_title (u "a")) rnd0 (mk_task 3 (u "a") None false)
           (sample_db ++ [mk_task 3 (u "a") None false]) _ _ eq_refl).
  - intros j Hj. simpl in Hj. unfold max_rowid. lia.
  - unfold max_rowid. simpl. lia.
Defined.

(** Deleting the task just created succeeds and gives back the table as it
    was before the create. *)
Theorem post_then_delete_restores : forall rows b rnd t rows',
  post_task rows b rnd = (Ok (RTask t), rows') ->
  delete_task rows' (id t) = (Ok (ROk true), rows).
Proof.
  intros rows b rnd t rows' H. apply post_task_Ok in H as [-> [_ [Hf Hi]]].
  exact (delete_inserted rows t Hi Hf).
Qed.

Lemma post_then_delete_restores_witness :
  delete_task (sample_db ++ [mk_task 3 (u "a") None false]) 3 = (Ok (ROk true), sample_db).
Proof.
  exact (post_then_delete_restores sample_db (body_of_title (u "a")) rnd0
           (mk_task 3 (u "a") None false) (sample_db ++ [mk_task 3 (u "a") None false]) eq_refl).
Defined.

(** Ids are not reserved: while every id is below 2^63-1, after deleting
    the task just created, the next create gets the same id again (SQLite's
    rowid without AUTOINCREMENT). *)
Theorem post_delete_post_reuses_id : forall rows b rnd t rows1 b' rnd' t' rows2,
  (forall j, In j (ids rows) -> j < max_rowid) ->
  post_task rows b rnd = (Ok (RTask t), rows1) ->
  post_task (snd (delete_task rows1 (id t))) b' rnd' = (Ok (RTask t'), rows2) ->
  id t' = id t.
Proof.
  intros rows b rnd t rows1 b' rnd' t' rows2 Hmax H1 H2.
  apply post_task_Ok in H1 as [-> [E1 [Hf Hi]]].
  rewrite delete_inserted in H2 by assumption. cbn [snd] in H2.
  apply post_task_Ok in H2 as [_ [E2 _]].
  rewrite (next_rowid_below rnd' rnd rows Hmax) in E2. congruence.
Qed.

Lemma post_delete_post_reuses_id_witness : (3 = 3)%Z.
Proof.
  refine (post_delete_post_reuses_id sample_db (body_of_title (u "a")) rnd0
           (mk_task 3 (u "a") None false) (sample_db ++ [mk_task 3 (u "a") None false])
           (body_of_title (u "b")) rnd0 (mk_task 3 (u "b") None false)
           (sample_db ++ [mk_task 3 (u "b") None false]) _ eq_refl eq_refl).
  intros j Hj. simpl in Hj. unfold max_rowid. lia.
Defined.

(** After a successful update, get-by-id returns what the update returned. *)
Theorem patch_then_get : forall rows i b t',
  fst (patch_task rows i b) = Ok (RTask t') ->
  read_task (snd (patch_task rows i b)) i = (Ok (RTask t'), snd (patch_task rows i b)).
Proof.
  intros rows i b t'. unfold patch_task, update_task.
  destruct (session_get rows i) as [t|] eqn:Hg; simpl; [|discriminate].
  destruct (flush _ _) as [e|r] eqn:Hf; simpl; [discriminate|].
  intros H. injection H as <-. unfold read_task.
  rewrite (session_get_sql_update _ _ t); [reflexivity | exact Hg|].
  apply flush_id in Hf. rewrite Hf, sqlmodel_update_id. simpl.
  now apply session_get_Some in Hg.
Qed.

Lemma patch_then_get_witness :
  read_task (snd (patch_task sample_db 1 (mk_body Absent Absent (Val true)))) 1 =
  (Ok (RTask (mk_task 1 (u "Buy milk") None true)),
   snd (patch_task sample_db 1 (mk_body Absent Absent (Val true)))).
Proof. apply patch_then_get. reflexivity. Defined.

(** An empty PATCH body on a stored task returns it unchanged and leaves
    the table as it was (ids distinct, as in every reachable table). *)
Theorem patch_empty_noop : forall rows i t,
  NoDup (ids rows) -> session_get rows i = Some t ->
  patch_task rows i empty_patch = (Ok (RTask t), rows).
Proof.
  intros rows i t Hnd Hg. unfold patch_task, update_task. rewrite Hg.
  destruct t as [ti tt td tc]. simpl.
  now rewrite (sql_update_same rows i (mk_task ti tt td tc)).
Qed.

Lemma patch_empty_noop_witness :
  patch_task sample_db 2 empty_patch =
  (Ok (RTask (mk_task 2 (u "Fix error") (Some (u "prod")) false)), sample_db).
Proof.
  apply patch_empty_noop; [repeat constructor; simpl; intuition lia | reflexivity].
Defined.

(** Sending the same PATCH twice gives the same outcome and the same table
    as sending it once. *)
Theorem patch_idempotent : forall rows i b,
  patch_task (snd (patch_task rows i b)) i b = patch_task rows i b.
Proof.
  intros rows i b. unfold patch_task, update_task.
  set (d := model_dump_exclude_unset (validate_update b)).
  destruct (session_get rows i) as [t|] eqn:Hg; simpl; [|now rewrite Hg].
  destruct (flush (sqlmodel_update (load t) d) d) as [e|r] eqn:Hf; simpl.
  { rewrite Hg. cbv beta iota. now rewrite Hf. }
  destruct (session_get_Some _ _ _ Hg) as [Hid _].
  assert (Hr : id r = i) by (apply flush_id in Hf; rewrite Hf, sqlmodel_update_id; exact Hid).
  rewrite (session_get_sql_update _ _ t) by assumption. cbv beta iota.
  pose proof (flush_again t b r Hf) as Hf2. fold d in Hf2.
  rewrite Hf2, sql_update_twice by exact Hr. reflexivity.
Qed.

(** An update of one id leaves every other id's row as it was. *)
Theorem patch_frame : forall rows i j b,
  j <> i -> session_get (snd (patch_task rows i b)) j = session_get rows j.
Proof.
  intros rows i j b Hji. unfold patch_task, update_task.
  destruct (session_get rows i) as [t|] eqn:Hg; simpl; [|reflexivity].
  destruct (flush _ _) as [e|r] eqn:Hf; simpl; [reflexivity|].
  apply session_get_sql_update_other; [|exact Hji].
  apply flush_id in Hf. rewrite Hf, sqlmodel_update_id. simpl.
  now apply session_get_Some in Hg.
Qed.

Lemma patch_frame_witness :
  session_get (snd (patch_task sample_db 1 (mk_body (Val (u "x")) Null (Val true)))) 2 =
  session_get sample_db 2.
Proof. apply patch_frame. lia. Defined.

(** A delete of one id leaves every other id's row as it was. *)
Theorem delete_frame : forall rows i j,
  j <> i -> session_get (snd (delete_task rows i)) j = session_get rows j.
Proof.
  intros rows i j Hji. unfold delete_task.
  destruct (session_get rows i); simpl; [|reflexivity].
  now apply session_get_sql_delete_other.
Qed.

Lemma delete_frame_witness :
  session_get (snd (delete_task sample_db 1)) 2 = session_get sample_db 2.
Proof. apply delete_frame. lia. Defined.

(** With distinct ids, deleting a stored id (an int64, as every rowid is)
    removes exactly one row. *)
Theorem delete_removes_one : forall rows i,
  NoDup (ids rows) -> In i (ids rows) -> in_int64 i = true ->
  List.length (snd (delete_task rows i)) = (List.length rows - 1)%nat.
Proof.
  intros rows i Hnd Hi Hi64. unfold delete_task.
  destruct (session_get rows i) eqn:Hg;
    [|apply session_get_None in Hg as [Hg | Hg]; [congruence | contradiction]]. simpl.
  rewrite <- (length_map id (sql_delete rows i)), <- (length_map id rows).
  change (List.length (ids (sql_delete rows i)) = (List.length (ids rows) - 1)%nat).
  rewrite ids_sql_delete. clear Hg. induction (ids rows) as [|x l IH]; [contradiction|].
  inversion Hnd as [|y l' Hx Hnd']; subst. simpl.
  destruct (Z.eqb_spec x i) as [-> | E]; simpl.
  - rewrite filter_not_in by exact Hx. lia.
  - destruct Hi as [Hi | Hi]; [congruence|].
    rewrite IH by assumption. destruct l; [contradiction | simpl; lia].
Qed.

Lemma delete_removes_one_witness :
  List.length (snd (delete_task sample_db 2)) = 1%nat.
Proof.
  apply (delete_removes_one sample_db 2);
    [repeat constructor; simpl; intuition lia | simpl; tauto | reflexivity].
Defined.

(** ** Reachable tables *)

(** In every reachable table the ids strictly increase in row order. *)
Theorem reachable_ids_sorted : forall ul rqs,
  StronglySorted Z.lt (ids (run ul [] rqs)).
Proof.
  intros ul rqs. assert (H : forall rows, StronglySorted Z.lt (ids rows) ->
                              StronglySorted Z.lt (ids (run ul rows rqs))).
  { induction rqs as [|rq rqs IH]; intros rows Hs; simpl; [exact Hs|].
    apply IH. destruct rq as [b rnd | o l | i | i b | i | d]; simpl.
    - unfold post_task. destruct (validate_create b) as [tc|]; [|exact Hs].
      destruct (create_task_cases rnd rows tc) as [E | [E | [row [E [Hf _]]]]].
      + rewrite E. exact Hs.
      + rewrite E. exact Hs.
      + rewrite E. now apply StronglySorted_insert_row.
    - unfold read_tasks. destruct (100 <? l); [exact Hs|].
      now destruct (in_int64 o && in_int64 l).
    - unfold read_task. now destruct (session_get rows i).
    - unfold patch_task, update_task. destruct (session_get rows i) as [t|] eqn:Hg; [|exact Hs].
      destruct (flush _ _) as [e|r] eqn:Hf; [exact Hs|]. simpl.
      apply flush_id in Hf. rewrite sqlmodel_update_id in Hf. simpl in Hf.
      apply session_get_Some in Hg as [Hid _].
      rewrite ids_sql_update by congruence. exact Hs.
    - unfold delete_task. destruct (session_get rows i); [|exact Hs]. simpl.
      rewrite ids_sql_delete. now apply StronglySorted_filter.
    - unfold analyze_task_sentiment. now destruct (utf8_encodable d). }
  apply H. constructor.
Qed.

(** In every reachable table every id lies between 1 and 2^63-1. *)
Theorem reachable_ids_range : forall ul rqs,
  Forall (fun j => 1 <= j <= max_rowid) (ids (run ul [] rqs)).
Proof.
  intros ul rqs.
  assert (H : forall rows, Forall (fun j => 1 <= j <= max_rowid) (ids rows) ->
                Forall (fun j => 1 <= j <= max_rowid) (ids (run ul rows rqs))).
  { induction rqs as [|rq rqs IH]; intros rows Hs; simpl; [exact Hs|].
    apply IH. destruct rq as [b rnd | o l | i | i b | i | d]; simpl.
    - unfold post_task. destruct (validate_create b) as [tc|]; [|exact Hs].
      destruct (create_task_cases rnd rows tc) as [E | [E | [row [E [_ Hn]]]]].
      + rewrite E. exact Hs.
      + rewrite E. exact Hs.
      + rewrite E. apply Forall_insert_row; [exact (next_rowid_range _ _ _ Hn Hs) | exact Hs].
    - unfold read_tasks. destruct (100 <? l); [exact Hs|].
      now destruct (in_int64 o && in_int64 l).
    - unfold read_task. now destruct (session_get rows i).
    - unfold patch_task, update_task. destruct (session_get rows i) as [t|] eqn:Hg; [|exact Hs].
      destruct (flush _ _) as [e|r] eqn:Hf; [exact Hs|]. simpl.
      apply flush_id in Hf. rewrite sqlmodel_update_id in Hf. simpl in Hf.
      apply session_get_Some in Hg as [Hid _].
      rewrite ids_sql_update by congruence. exact Hs.
    - unfold delete_task. destruct (session_get rows i); [|exact Hs]. simpl.
      rewrite ids_sql_delete. now apply Forall_filter_Z.
    - unfold analyze_task_sentiment. now destruct (utf8_encodable d). }
  apply H. constructor.
Qed.
